(** * Verification of the baseball timing-batting game logic

    Shallow embedding of the pure game utilities ([src/unnamed/part_003]:
    [advanceBases], [plateTimeMsFromMph]), the timing constants
    ([src/unnamed/part_002]) and the session-state handlers of
    [src/src/screens/ScreenBaseballTiming.tsx] ([settleResult], [doSwing],
    the end-of-flight branch of [startPitch], the three-out effect and
    [resetAll]).

    JavaScript numbers are modelled as exact rationals [Q] (progress,
    timing deltas, durations) or as integers [Z] (counters, base indices);
    React state setters are modelled as updates of an explicit session
    record. *)

From Stdlib Require Import ZArith QArith Qabs Qminmax Lia Lqa List Bool.
From Stdlib Require String Ascii.
Import ListNotations.

Open Scope Z_scope.

(** ** Runners ([src/src/game/types.ts]) *)

Record Runners := mkRunners { on1 : bool; on2 : bool; on3 : bool }.

Definition emptyRunners : Runners := mkRunners false false false.

(** Number of occupied bases. *)
Definition occupied (r : Runners) : Z :=
  (if on1 r then 1 else 0) + (if on2 r then 1 else 0) + (if on3 r then 1 else 0).

(** ** [advanceBases] ([src/unnamed/part_003], lines 60-85) *)

(** Array read [arr[i]] on a three-element boolean array; an index outside
    [0..2] reads [undefined], which is falsy. *)
Definition nth3 (a : list bool) (i : Z) : bool :=
  if (0 <=? i) && (i <? 3) then nth (Z.to_nat i) a false else false.

(** Array write [nextArr[j] = true]: an index outside [0..2] only adds a
    named property to the JS array and leaves [nextArr[0..2]] unchanged. *)
Fixpoint set_true_nat (a : list bool) (k : nat) : list bool :=
  match a, k with
  | [], _ => []
  | _ :: t, O => true :: t
  | x :: t, S k' => x :: set_true_nat t k'
  end.

Definition setTrue (a : list bool) (j : Z) : list bool :=
  if (0 <=? j) && (j <? 3) then set_true_nat a (Z.to_nat j) else a.

(** One iteration of [for (let i = 2; i >= 0; i--)]. *)
Definition advanceStep (arr : list bool) (n : Z)
    (acc : list bool * Z) (i : Z) : list bool * Z :=
  let '(nextArr, scored) := acc in
  if negb (nth3 arr i) then (nextArr, scored)
  else
    let j := i + n in
    if j >=? 3 then (nextArr, scored + 1)
    else (setTrue nextArr j, scored).

Definition advanceBases (state : Runners) (n : Z) : Runners * Z :=
  let arr := [on1 state; on2 state; on3 state] in
  if n >=? 4 then
    let scored := Z.of_nat (length (filter (fun b : bool => b) arr)) + 1 in
    (emptyRunners, scored)
  else
    let '(nextArr, scored) :=
      fold_left (advanceStep arr n) [2; 1; 0] ([false; false; false], 0) in
    let batterIndex := n - 1 in
    let '(nextArr, scored) :=
      if batterIndex >=? 3 then (nextArr, scored + 1)
      else (setTrue nextArr batterIndex, scored) in
    (mkRunners (nth3 nextArr 0) (nth3 nextArr 1) (nth3 nextArr 2), scored).

(** Base occupancy as the array [[on1, on2, on3]] read at index [i]. *)
Definition baseAt (r : Runners) (i : Z) : bool := nth3 [on1 r; on2 r; on3 r] i.

(** Number of runners on the input bases whose target [i + n] is home. *)
Definition crossing (s : Runners) (n : Z) : Z :=
  Z.of_nat (length (filter (fun i => baseAt s i && (i + n >=? 3)) [2; 1; 0])).

(** ** Timing constants ([src/unnamed/part_002], lines 207-214) *)

Open Scope Q_scope.

Definition CONTACT_PROGRESS : Q := 86 # 100.
Definition PERFECT : Q := 10 # 1000.
Definition GOOD : Q := 20 # 1000.
Definition OKAY : Q := 35 # 1000.
Definition FOUL : Q := 55 # 1000.

(** Strict comparison [x < y] on rationals, as a boolean. *)
Definition Qlt_bool (x y : Q) : bool := negb (Qle_bool y x).

(** ** Hit results ([src/src/game/types.ts]) *)

Inductive StrikeReason := Early | Late | Miss.

Inductive HitKind := Single | Double | Triple | Homerun.

(** [exitVelo], [launchDeg] and [distance] of a hit are drawn with
    [Math.random] and [Math.sin] for display only; [settleResult] never
    reads them, so the embedding keeps the kind and the timing delta. *)
Inductive HitResult :=
  | Strike (reason : StrikeReason)
  | Foul (timingDelta : Q)
  | Hit (kind : HitKind) (timingDelta : Q).

(** ** [doSwing] ([src/src/screens/ScreenBaseballTiming.tsx], lines 142-168) *)

(** The verdict ladder on [delta = |t - CONTACT_PROGRESS|]; [None] is the
    empty [else] branch (no verdict, the pitch keeps flying). *)
Definition swingVerdict (delta : Q) : option HitResult :=
  if Qle_bool delta PERFECT then Some (Hit Homerun delta)
  else if Qle_bool delta GOOD then Some (Hit Double delta)
  else if Qle_bool delta OKAY then
    let kind := if Qlt_bool delta (OKAY * (6 # 10)) then Double else Single in
    Some (Hit kind delta)
  else if Qle_bool delta FOUL then Some (Foul delta)
  else None.

(** Outcome of a swing: the result handed to [settleResult] (if any), the
    new value of [swingAtRef.current] and the new [inPlay] flag. *)
Record SwingOutcome := mkSwingOutcome {
  settled : option HitResult;
  swingAt' : option Q;
  inPlay' : bool
}.

Definition doSwing (inPlay : bool) (progress : Q) (swingAt : option Q) : SwingOutcome :=
  if negb inPlay then mkSwingOutcome None swingAt inPlay
  else
    let t := progress in
    let delta := Qabs (t - CONTACT_PROGRESS) in
    match swingVerdict delta with
    | Some r => mkSwingOutcome (Some r) (Some t) false
    | None => mkSwingOutcome None (Some t) inPlay
    end.

(** ** End of flight ([startPitch], lines 78-91)

    When [t] reaches 1 the step callback tests [!swingAtRef.current]:
    [null] and the number [0] are both falsy in JavaScript. *)
Definition jsFalsy (v : option Q) : bool :=
  match v with
  | None => true
  | Some x => Qeq_bool x 0
  end.

Definition endOfFlight (swingAt : option Q) : option HitResult :=
  match swingAt with
  | Some x =>
      if jsFalsy swingAt then Some (Strike Miss)
      else
        let d := Qabs (x - CONTACT_PROGRESS) in
        if Qlt_bool FOUL d then
          Some (Strike (if Qlt_bool x CONTACT_PROGRESS then Early else Late))
        else None
  | None => Some (Strike Miss)
  end.

(** ** [plateTimeMsFromMph] ([src/unnamed/part_003], lines 7-23) *)

Definition clamp (v lo hi : Q) : Q := Qmax lo (Qmin hi v).

Definition lerp (a b t : Q) : Q := a + (b - a) * t.

Definition plateTimeMsFromMph (mph : Q) : Q :=
  lerp 2000 400 (clamp ((mph - 20) / (100 - 20)) 0 1).

(** ** Session state ([ScreenBaseballTiming], lines 30-40)

    The game-state [useState] hooks of the screen. The settings ([mph],
    [pitchGapMs], [autoPitch], [pitchType], [assistBar]) and the refs are
    not part of the session. *)

Open Scope Z_scope.

Record Session := mkSession {
  inPlay : bool;
  progress : Q;
  result : option HitResult;
  strikes : Z;
  outs : Z;
  runs : Z;
  pitches : Z;
  maxPitches : Z;
  gameOver : bool;
  runners : Runners
}.

(** Initial values of the hooks. *)
Definition initialSession : Session :=
  mkSession false 0%Q None 0 0 0 0 5 false emptyRunners.

(** One setter per hook. *)
Definition setInPlay (v : bool) (s : Session) : Session :=
  mkSession v (progress s) (result s) (strikes s) (outs s) (runs s)
    (pitches s) (maxPitches s) (gameOver s) (runners s).
Definition setProgress (v : Q) (s : Session) : Session :=
  mkSession (inPlay s) v (result s) (strikes s) (outs s) (runs s)
    (pitches s) (maxPitches s) (gameOver s) (runners s).
Definition setResult (v : option HitResult) (s : Session) : Session :=
  mkSession (inPlay s) (progress s) v (strikes s) (outs s) (runs s)
    (pitches s) (maxPitches s) (gameOver s) (runners s).
Definition setStrikes (v : Z) (s : Session) : Session :=
  mkSession (inPlay s) (progress s) (result s) v (outs s) (runs s)
    (pitches s) (maxPitches s) (gameOver s) (runners s).
Definition setOuts (v : Z) (s : Session) : Session :=
  mkSession (inPlay s) (progress s) (result s) (strikes s) v (runs s)
    (pitches s) (maxPitches s) (gameOver s) (runners s).
Definition setRuns (v : Z) (s : Session) : Session :=
  mkSession (inPlay s) (progress s) (result s) (strikes s) (outs s) v
    (pitches s) (maxPitches s) (gameOver s) (runners s).
Definition setPitches (v : Z) (s : Session) : Session :=
  mkSession (inPlay s) (progress s) (result s) (strikes s) (outs s) (runs s)
    v (maxPitches s) (gameOver s) (runners s).
Definition setMaxPitches (v : Z) (s : Session) : Session :=
  mkSession (inPlay s) (progress s) (result s) (strikes s) (outs s) (runs s)
    (pitches s) v (gameOver s) (runners s).
Definition setGameOver (v : bool) (s : Session) : Session :=
  mkSession (inPlay s) (progress s) (result s) (strikes s) (outs s) (runs s)
    (pitches s) (maxPitches s) v (runners s).
Definition setRunners (v : Runners) (s : Session) : Session :=
  mkSession (inPlay s) (progress s) (result s) (strikes s) (outs s) (runs s)
    (pitches s) (maxPitches s) (gameOver s) v.

(** ** [settleResult] (lines 99-139)

    The functional updates queued by one call are applied in order. The
    home-run branch reads [runners] from the render's closure, that is the
    committed session state. *)
Definition settleResult (r : HitResult) (s : Session) : Session :=
  let s := setResult (Some r) s in
  match r with
  | Strike _ =>
      let ns := strikes s + 1 in
      if ns >=? 3 then setStrikes 0 (setOuts (outs s + 1) s)
      else setStrikes ns s
  | Foul _ =>
      let s := setStrikes (if strikes s <? 2 then strikes s + 1 else 2) s in
      setMaxPitches (maxPitches s + 1) s
  | Hit Homerun _ =>
      let runnersNow := occupied (runners s) in
      let s := setRuns (runs s + 5 + runnersNow) s in
      let s := setRunners emptyRunners s in
      setStrikes 0 s
  | Hit kind _ =>
      let s := setRuns (runs s + 1) s in
      let bases := match kind with Single => 1 | Double => 2 | _ => 3 end in
      let '(next, scored) := advanceBases (runners s) bases in
      let s := setRuns (runs s + scored) s in
      let s := setRunners next s in
      setStrikes 0 s
  end.

(** ** Three-out effect (lines 193-200) *)
Definition outsEffect (s : Session) : Session :=
  if outs s >=? 3 then setRunners emptyRunners (setStrikes 0 (setOuts 0 s))
  else s.

(** ** [resetAll] (lines 234-239) *)
Definition resetAll (s : Session) : Session :=
  let s := setStrikes 0 s in
  let s := setOuts 0 s in
  let s := setRuns 0 s in
  let s := setPitches 0 s in
  let s := setResult None s in
  let s := setInPlay false s in
  let s := setProgress 0%Q s in
  let s := setRunners emptyRunners s in
  setGameOver false s.

(** ** [startPitch] (lines 61-96): the state updates of the call itself

    The [swingAtRef] ref is threaded beside the session. The animation loop
    it schedules is modelled by [flightProgress] and [endOfFlight]. *)
Definition startPitch (s : Session) (swingAt : option Q) : Session * option Q :=
  if inPlay s then (s, swingAt)
  else
    let s := setResult None s in
    let s := setInPlay true s in
    let s := setProgress 0%Q s in
    let s := setPitches (pitches s + 1) s in
    (s, None).

(** ** Game-over effect (lines 206-211), run when [pitches] changes *)
Definition gameOverEffect (s : Session) : Session :=
  if pitches s >=? maxPitches s then setGameOver true (setInPlay false s)
  else s.

(** ** Animation step of [startPitch] (lines 72-79)

    [elapsed = now - (startTsRef.current || now)]: a start stamp of
    [null] or [0] is falsy and gives [elapsed = 0]. The result is the new
    progress; the loop schedules another frame while it is below 1. *)
Definition flightProgress (startTs : option Q) (now plateTime : Q) : Q :=
  let st := match startTs with
            | Some x => if Qeq_bool x 0 then now else x
            | None => now
            end in
  let elapsed := (now - st)%Q in
  clamp (elapsed / plateTime) 0 1.

Definition flightContinues (t : Q) : bool := Qlt_bool t 1.

(** ** Ball position (lines 221-222) *)
Definition yPx (progress : Q) : Q := lerp 0 320 progress.
Definition zScale (progress : Q) : Q := lerp (6 # 10) (14 # 10) progress.

(** ** [useBleSwing]'s [handleNotify] ([src/unnamed/part_002], lines 105-125)

    Text handling on the ASCII subset: [TextDecoder] is the identity on
    ASCII bytes, [trim] drops ASCII white space at both ends,
    [toUpperCase] maps [a-z] to [A-Z], [includes] is substring search. *)
Module Ble.

Import String Ascii.

Definition isSpace (c : ascii) : bool :=
  match nat_of_ascii c with
  | 9%nat | 10%nat | 11%nat | 12%nat | 13%nat | 32%nat => true
  | _ => false
  end.

Fixpoint dropSpaces (s : string) : string :=
  match s with
  | EmptyString => EmptyString
  | String c t => if isSpace c then dropSpaces t else s
  end.

Definition reverseStr (s : string) : string :=
  string_of_list_ascii (rev (list_ascii_of_string s)).

Definition trim (s : string) : string :=
  reverseStr (dropSpaces (reverseStr (dropSpaces s))).

Definition upperChar (c : ascii) : ascii :=
  let n := nat_of_ascii c in
  if (Nat.leb 97 n && Nat.leb n 122)%bool then ascii_of_nat (n - 32)%nat else c.

Fixpoint toUpperCase (s : string) : string :=
  match s with
  | EmptyString => EmptyString
  | String c t => String (upperChar c) (toUpperCase t)
  end.

Fixpoint includes (s tok : string) : bool :=
  prefix tok s ||
  match s with
  | EmptyString => false
  | String _ t => includes t tok
  end.

(** One notification: [value] is [None] when [c.value] is missing. The
    result is whether [onSwing] runs and the new [lastSwingAtRef]. *)
Definition handleNotify (swingToken : string) (debounceMs : Q)
    (value : option string) (now last : Q) : bool * Q :=
  match value with
  | None => (false, last)
  | Some raw =>
      let text := trim raw in
      if includes (toUpperCase text) (toUpperCase swingToken) then
        if Qle_bool debounceMs (now - last) then (true, now) else (false, last)
      else (false, last)
  end.

(** A run of notifications ([value], [performance.now()]): the times at
    which [onSwing] was called. [lastSwingAtRef] starts at 0. *)
Fixpoint acceptedSwings (swingToken : string) (debounceMs : Q) (last : Q)
    (evs : list (option string * Q)) : list Q :=
  match evs with
  | [] => []
  | (v, now) :: rest =>
      let '(fired, last') := handleNotify swingToken debounceMs v now last in
      if fired then now :: acceptedSwings swingToken debounceMs last' rest
      else acceptedSwings swingToken debounceMs last' rest
  end.

(** Every element is at least [d] after the previous one, the first at
    least [d] after [start]. *)
Fixpoint spacedFrom (d start : Q) (l : list Q) : Prop :=
  match l with
  | [] => True
  | x :: t => (d <= x - start)%Q /\ spacedFrom d x t
  end.

End Ble.

(** ** Swing detector of the ESP32 sketch ([src/ESP32_BLE_Swing.ino],
    lines 24-28 and 82-106)

    [millis()] and [lastSwingTime] are 32-bit [unsigned long]s, so
    [now - lastSwingTime] wraps modulo 2^32; [DEBOUNCE_MS] is converted
    to unsigned for the comparison. The acceleration magnitude is taken
    as given (the [sqrt] of the sensor reading). *)
Module Esp32.

Definition ULONG_MOD : Z := 2 ^ 32.
Definition SWING_THRESHOLD : Q := 18.
Definition DEBOUNCE_MS : Z := 300.

(** One [loop()] iteration: whether a swing is detected, whether "SWING"
    is notified, and the new [lastSwingTime]. *)
Definition loopStep (deviceConnected : bool) (accelMag : Q) (now last : Z)
    : bool * bool * Z :=
  if Qlt_bool SWING_THRESHOLD accelMag && ((now - last) mod ULONG_MOD >? DEBOUNCE_MS)
  then (true, deviceConnected, now)
  else (false, false, last).

(** A run of loop iterations ([accelMag], [millis()]) from
    [lastSwingTime = 0]: the [millis()] values of detected swings. *)
Fixpoint detections (deviceConnected : bool) (last : Z) (evs : list (Q * Z)) : list Z :=
  match evs with
  | [] => []
  | (a, now) :: rest =>
      let '(det, _, last') := loopStep deviceConnected a now last in
      if det then now :: detections deviceConnected last' rest
      else detections deviceConnected last' rest
  end.

Fixpoint spacedMod (start : Z) (l : list Z) : Prop :=
  match l with
  | [] => True
  | x :: t => (x - start) mod ULONG_MOD > DEBOUNCE_MS /\ spacedMod x t
  end.

End Esp32.

(** ** Earlier single-file version of the screen ([src/unnamed/part_005],
    lines 49-54): its plate-time mapping. *)
Module Legacy.

Definition plateTimeMsFromMph (mph : Q) : Q :=
  lerp 600 400 (clamp ((mph - 70) / (100 - 70)) 0 1).

End Legacy.

(** ** Theorems *)

Open Scope Z_scope.

Ltac cases_small n :=
  let Hn := fresh in
  assert (Hn : n = 1 \/ n = 2 \/ n = 3) by lia;
  destruct Hn as [-> | [-> | ->]].

(** Conservation of runners for hits of one to three bases. *)
Lemma advance_conservation_small (s : Runners) (n : Z) :
  1 <= n <= 3 ->
  snd (advanceBases s n) + occupied (fst (advanceBases s n)) = occupied s + 1.
Proof.
  intros Hn; cases_small n; destruct s as [[] [] []]; reflexivity.
Qed.

(** Claim C1: for [n] in {1,2,3}, [advanceBases] puts each runner on base
    [i] on base [i + n] when [i + n < 3] and otherwise counts it in
    [scored]; the batter occupies base [n - 1]; nothing else is occupied;
    [scored] is exactly the number of runners that crossed home; no two
    runners share a base (runners are conserved). With runners on first
    and third and a single, the runner on third scores, the runner on
    first reaches second, the batter takes first and [scored = 1]. *)
Theorem advanceBases_small_hits (s : Runners) (n : Z) :
  1 <= n <= 3 ->
  let '(next, scored) := advanceBases s n in
  (forall j, 0 <= j < 3 ->
     baseAt next j = ((j =? n - 1) || ((0 <=? j - n) && baseAt s (j - n)))) /\
  scored = crossing s n + (if n - 1 >=? 3 then 1 else 0) /\
  scored + occupied next = occupied s + 1 /\
  advanceBases (mkRunners true false true) 1 = (mkRunners true true false, 1).
Proof.
  intros Hn.
  pose proof (advance_conservation_small s n Hn) as Hc.
  destruct (advanceBases s n) as [next scored] eqn:E; simpl in Hc.
  split; [| split; [| split; [exact Hc | reflexivity]]].
  - intros j Hj.
    assert (Hj' : j = 0 \/ j = 1 \/ j = 2) by lia.
    cases_small n; destruct s as [[] [] []];
      injection E as <- <-;
      destruct Hj' as [-> | [-> | ->]]; reflexivity.
  - cases_small n; destruct s as [[] [] []];
      injection E as <- <-; reflexivity.
Qed.

(** Witness for C1 at runners on first and third and a single. *)
Lemma advanceBases_small_hits_witness :
  1 <= 1 <= 3 /\
  (let '(next, scored) := advanceBases (mkRunners true false true) 1 in
   (forall j, 0 <= j < 3 ->
      baseAt next j = ((j =? 1 - 1) || ((0 <=? j - 1) && baseAt (mkRunners true false true) (j - 1)))) /\
   scored = crossing (mkRunners true false true) 1 + (if 1 - 1 >=? 3 then 1 else 0) /\
   scored + occupied next = occupied (mkRunners true false true) + 1 /\
   advanceBases (mkRunners true false true) 1 = (mkRunners true true false, 1)).
Proof.
  split; [lia |].
  apply (advanceBases_small_hits (mkRunners true false true) 1); lia.
Defined.

(** Claim C10: for every integer [n >= 1], the runs scored plus the
    occupied bases after [advanceBases] equal the occupied bases before
    plus the batter: no runner is lost or duplicated. *)
Theorem advanceBases_conservation (s : Runners) (n : Z) :
  1 <= n ->
  let '(next, scored) := advanceBases s n in
  scored + occupied next = occupied s + 1.
Proof.
  intros Hn.
  destruct (Z_lt_le_dec n 4) as [Hlt | Hge].
  - pose proof (advance_conservation_small s n ltac:(lia)) as Hc.
    destruct (advanceBases s n); exact Hc.
  - unfold advanceBases.
    replace (n >=? 4) with true by (symmetry; apply Z.geb_le; lia).
    destruct s as [[] [] []]; reflexivity.
Qed.

(** Witness for C10 at a home-run-sized advance with bases loaded. *)
Lemma advanceBases_conservation_witness :
  1 <= 5 /\
  (let '(next, scored) := advanceBases (mkRunners true true true) 5 in
   scored + occupied next = occupied (mkRunners true true true) + 1).
Proof.
  split; [lia |].
  apply (advanceBases_conservation (mkRunners true true true) 5); lia.
Defined.

(** *** Timing verdicts *)

Open Scope Q_scope.

Lemma Qle_bool_false_iff (x y : Q) : Qle_bool x y = false <-> y < x.
Proof.
  split; intros H.
  - apply Qnot_le_lt; intros Hle; apply Qle_bool_iff in Hle; congruence.
  - destruct (Qle_bool x y) eqn:E; [| reflexivity].
    apply Qle_bool_iff in E; exfalso; apply (Qlt_not_le y x); assumption.
Qed.

Lemma Qlt_bool_iff (x y : Q) : Qlt_bool x y = true <-> x < y.
Proof.
  unfold Qlt_bool; rewrite negb_true_iff; apply Qle_bool_false_iff.
Qed.

Lemma Qlt_bool_false_iff (x y : Q) : Qlt_bool x y = false <-> y <= x.
Proof.
  unfold Qlt_bool; rewrite negb_false_iff; apply Qle_bool_iff.
Qed.

Ltac qbool :=
  repeat match goal with
  | H : ?x <= ?y |- context [Qle_bool ?x ?y] =>
      rewrite (proj2 (Qle_bool_iff x y) H)
  | H : ?y < ?x |- context [Qle_bool ?x ?y] =>
      rewrite (proj2 (Qle_bool_false_iff x y) H)
  | H : ?x < ?y |- context [Qlt_bool ?x ?y] =>
      rewrite (proj2 (Qlt_bool_iff x y) H)
  | H : ?y <= ?x |- context [Qlt_bool ?x ?y] =>
      rewrite (proj2 (Qlt_bool_false_iff x y) H)
  end.

(** Claim C2: for a swing while the pitch is in flight at progress [t],
    with [delta = |t - CONTACT_PROGRESS|], the first matching rung of the
    ladder decides: [delta <= PERFECT] gives a home run; else
    [delta <= GOOD] a double; else [delta <= OKAY] a double when
    [delta < OKAY * 0.6] and a single otherwise (so a single at exactly
    [OKAY * 0.6]); else [delta <= FOUL] a foul; else no verdict, the swing
    is recorded and the pitch stays in flight. *)
Ltac split_at c d :=
  destruct (Qlt_le_dec c d).

Theorem doSwing_ladder (t : Q) (swingAt : option Q) :
  let delta := Qabs (t - CONTACT_PROGRESS) in
  let o := doSwing true t swingAt in
  (delta <= PERFECT -> settled o = Some (Hit Homerun delta)) /\
  (PERFECT < delta -> delta <= GOOD -> settled o = Some (Hit Double delta)) /\
  (GOOD < delta -> delta <= OKAY -> delta < OKAY * (6 # 10) ->
     settled o = Some (Hit Double delta)) /\
  (GOOD < delta -> delta <= OKAY -> OKAY * (6 # 10) <= delta ->
     settled o = Some (Hit Single delta)) /\
  (delta == OKAY * (6 # 10) -> settled o = Some (Hit Single delta)) /\
  (OKAY < delta -> delta <= FOUL -> settled o = Some (Foul delta)) /\
  (FOUL < delta -> settled o = None /\ swingAt' o = Some t /\ inPlay' o = true).
Proof.
  intros delta o; subst o; unfold doSwing, swingVerdict; simpl negb; cbv iota.
  fold delta.
  repeat split; intros;
    split_at PERFECT delta; split_at GOOD delta; split_at OKAY delta;
    split_at FOUL delta; destruct (Qlt_le_dec delta (OKAY * (6 # 10)));
    unfold PERFECT, GOOD, OKAY, FOUL in *;
    qbool; first [reflexivity | exfalso; lra].
Qed.

(** A recorded swing at a non-zero progress whose delta exceeds [FOUL]
    ends the flight as an early or late strike. *)
Lemma endOfFlight_nonzero_swing (x : Q) :
  ~ x == 0 -> FOUL < Qabs (x - CONTACT_PROGRESS) ->
  endOfFlight (Some x) =
    Some (Strike (if Qlt_bool x CONTACT_PROGRESS then Early else Late)).
Proof.
  intros Hx Hd; unfold endOfFlight, jsFalsy.
  destruct (Qeq_bool x 0) eqn:E.
  - apply Qeq_bool_iff in E; contradiction.
  - rewrite (proj2 (Qlt_bool_iff _ _) Hd); reflexivity.
Qed.

(** Claim C3 (divergence): a swing at progress [0], taken after the pitch
    started and before the first animation frame, has
    [delta = 0.86 > FOUL], so [doSwing] gives no verdict and records
    [swingAtRef.current = 0]; at the end of the flight the falsy test
    [!swingAtRef.current] treats that recorded swing as no swing and
    settles [strike{miss}] instead of [strike{early}]. *)
Theorem endOfFlight_swing_at_zero :
  let o := doSwing true 0 None in
  settled o = None /\ swingAt' o = Some 0 /\ inPlay' o = true /\
  FOUL < Qabs (0 - CONTACT_PROGRESS) /\ 0 < CONTACT_PROGRESS /\
  endOfFlight (swingAt' o) = Some (Strike Miss).
Proof.
  repeat split; reflexivity.
Qed.

(** *** Pitch duration *)

Lemma clamp01_bounds (x : Q) : 0 <= clamp x 0 1 <= 1.
Proof.
  unfold clamp.
  destruct (Q.min_spec 1 x) as [[H1 H2] | [H1 H2]];
    destruct (Q.max_spec 0 (Qmin 1 x)) as [[H3 H4] | [H3 H4]]; lra.
Qed.

Lemma clamp01_id (x : Q) : 0 <= x <= 1 -> clamp x 0 1 == x.
Proof.
  intros [H0 H1]; unfold clamp.
  destruct (Q.min_spec 1 x) as [[H2 H3] | [H2 H3]];
    destruct (Q.max_spec 0 (Qmin 1 x)) as [[H4 H5] | [H4 H5]]; lra.
Qed.

Lemma plateTime_scale (mph : Q) :
  plateTimeMsFromMph mph == 2000 - 1600 * clamp ((mph - 20) * (1 # 80)) 0 1.
Proof.
  unfold plateTimeMsFromMph, lerp, Qdiv.
  change (/ (100 - 20)) with (1 # 80); ring.
Qed.

Lemma plateTime_linear (mph : Q) :
  20 <= mph <= 100 -> plateTimeMsFromMph mph == 2000 - 20 * (mph - 20).
Proof.
  intros H; rewrite plateTime_scale, clamp01_id by lra; ring.
Qed.

Lemma plateTime_bounds (mph : Q) : 400 <= plateTimeMsFromMph mph <= 2000.
Proof.
  rewrite plateTime_scale.
  pose proof (clamp01_bounds ((mph - 20) * (1 # 80))); lra.
Qed.

(** Claim C9 (divergence): at the slowest configurable velocity, 70 mph
    (the slider's minimum), the flight lasts 1000 ms, and no velocity of
    the 70-100 range takes longer. The docstring of [plateTimeMsFromMph]
    announces about 600 ms at 70 mph, as the earlier version of the screen
    computes, and the claim about 2000 ms at the minimum speed. *)
Lemma plateTime_at_min_speed_not_2000 :
  plateTimeMsFromMph 70 == 1000 /\
  (forall v, 70 <= v <= 100 -> plateTimeMsFromMph v <= 1000).
Proof.
  split; [reflexivity |].
  intros v Hv; rewrite plateTime_linear by lra; lra.
Qed.


(** *** Settling results *)

Open Scope Z_scope.

(** Claim C4: a foul raises [strikes] by one when it is below 2 and
    leaves it at 2 otherwise, so it never records an out, and it raises
    the max-pitch limit by exactly one; with two strikes, strikes stay 2
    and the limit grows by one. *)
Theorem foul_clamps_strikes (s : Session) (d : Q) :
  let s' := settleResult (Foul d) s in
  (strikes s < 2 -> strikes s' = strikes s + 1) /\
  (2 <= strikes s -> strikes s' = 2) /\
  maxPitches s' = maxPitches s + 1 /\
  outs s' = outs s /\ runs s' = runs s /\ runners s' = runners s /\
  (strikes s = 2 -> strikes s' = 2 /\ maxPitches s' = maxPitches s + 1).
Proof.
  cbn zeta; unfold settleResult; simpl.
  destruct (strikes s <? 2) eqn:E;
    [apply Z.ltb_lt in E | apply Z.ltb_ge in E];
    repeat split; intros; lia.
Qed.

(** Claim C5: a strike raises [strikes] by one, and when it reaches 3
    records an out and resets [strikes] to 0; runs and runners are
    untouched. From a fresh count, three strikes make exactly one out and
    leave [strikes] at 0, so a fourth strike counts 1. *)
Theorem strike_counts_out (s : Session) (rs : StrikeReason) :
  let s' := settleResult (Strike rs) s in
  (strikes s + 1 < 3 -> strikes s' = strikes s + 1 /\ outs s' = outs s) /\
  (strikes s + 1 = 3 -> strikes s' = 0 /\ outs s' = outs s + 1) /\
  runs s' = runs s /\ runners s' = runners s /\
  (strikes s = 0 ->
   let s3 := settleResult (Strike rs) (settleResult (Strike rs) s') in
   outs s3 = outs s + 1 /\ strikes s3 = 0 /\
   strikes (settleResult (Strike rs) s3) = 1 /\
   outs (settleResult (Strike rs) s3) = outs s + 1).
Proof.
  cbn zeta; unfold settleResult; simpl.
  repeat split; intros;
    repeat match goal with
    | H : strikes s = 0 |- _ => rewrite H in *
    | |- context [?a >=? ?b] => rewrite (Z.geb_leb a b)
    | |- context [?b <=? ?a] => destruct (Z.leb_spec b a)
    end; simpl in *; first [reflexivity | lia].
Qed.

(** Claim C6: a home run adds 5 plus the number of occupied bases to
    [runs], clears the bases and resets [strikes]; with the bases loaded
    runs grow by 8. *)
Theorem homerun_scores (s : Session) (d : Q) :
  let s' := settleResult (Hit Homerun d) s in
  runs s' = runs s + 5 + occupied (runners s) /\
  runners s' = emptyRunners /\ strikes s' = 0 /\
  (runners s = mkRunners true true true -> runs s' = runs s + 8).
Proof.
  cbn zeta; unfold settleResult; simpl.
  repeat split; try reflexivity.
  intros H; rewrite H; unfold occupied; simpl; lia.
Qed.

(** *** Three outs *)

(** Claim C7: when [outs] reaches 3 the effect sets [outs] and [strikes]
    to 0 and clears the bases, and leaves every other component, runs and
    the pitch count among them, as it was. *)
Theorem three_outs_reset (s : Session) :
  3 <= outs s ->
  let s' := outsEffect s in
  outs s' = 0 /\ strikes s' = 0 /\ runners s' = emptyRunners /\
  runs s' = runs s /\ pitches s' = pitches s /\
  maxPitches s' = maxPitches s /\ inPlay s' = inPlay s /\
  progress s' = progress s /\ result s' = result s /\
  gameOver s' = gameOver s.
Proof.
  intros H; cbn zeta; unfold outsEffect.
  replace (outs s >=? 3) with true by (symmetry; apply Z.geb_le; lia).
  repeat split.
Qed.

Lemma three_outs_reset_witness :
  let s := mkSession true (1 # 2)%Q None 2 3 7 4 6 false (mkRunners true false true) in
  3 <= outs s /\
  (let s' := outsEffect s in
   outs s' = 0 /\ strikes s' = 0 /\ runners s' = emptyRunners /\
   runs s' = runs s /\ pitches s' = pitches s /\
   maxPitches s' = maxPitches s /\ inPlay s' = inPlay s /\
   progress s' = progress s /\ result s' = result s /\
   gameOver s' = gameOver s).
Proof.
  cbn zeta; split; [simpl; lia |].
  apply three_outs_reset; simpl; lia.
Defined.

(** *** Reset *)

(** [resetAll] zeroes the counters it sets and is idempotent. *)
Lemma resetAll_idempotent (s : Session) : resetAll (resetAll s) = resetAll s.
Proof. reflexivity. Qed.

(** Claim C8 (divergence): [resetAll] never restores [maxPitches], which
    every foul raises. After one foul from the initial session, resetting
    gives a session with a max-pitch limit of 6, while resetting the
    initial session gives 5: the two reset states differ. *)
Theorem resetAll_keeps_maxPitches :
  let s1 := settleResult (Foul (45 # 1000)%Q) initialSession in
  maxPitches (resetAll s1) = 6 /\
  maxPitches (resetAll initialSession) = 5 /\
  resetAll s1 <> resetAll initialSession.
Proof.
  cbn zeta; split; [reflexivity | split; [reflexivity |]].
  intros H; apply (f_equal maxPitches) in H; discriminate.
Qed.

(** ** Further properties of the game code *)

Open Scope Z_scope.

(** *** Base advancement *)


(** A triple scores every runner on base and leaves only the batter, on
    third. *)
Theorem advanceBases_triple (s : Runners) :
  advanceBases s 3 = (mkRunners false false true, occupied s).
Proof. destruct s as [[] [] []]; reflexivity. Qed.

(** *** Settling results *)

(** Run accounting of a hit: runs plus occupied bases grow by 2 for a
    single, double or triple (the +1 bonus and the batter) and by 5 for a
    home run. *)
Theorem settle_hit_run_accounting (s : Session) (k : HitKind) (d : Q) :
  let s' := settleResult (Hit k d) s in
  runs s' + occupied (runners s') =
  runs s + occupied (runners s) + (match k with Homerun => 5 | _ => 2 end).
Proof.
  destruct k; cbn -[advanceBases occupied];
    [ .. | unfold occupied; cbn; lia];
    match goal with |- context [advanceBases ?r ?n] =>
      pose proof (advance_conservation_small r n ltac:(lia)) as Hc;
      destruct (advanceBases r n) as [nx sc]; cbn -[occupied] in *; lia
    end.
Qed.

(** [settleResult] never touches the pitch count, the in-flight flag, the
    progress or the game-over flag. *)
Theorem settle_frame (r : HitResult) (s : Session) :
  let s' := settleResult r s in
  pitches s' = pitches s /\ inPlay s' = inPlay s /\
  progress s' = progress s /\ gameOver s' = gameOver s.
Proof.
  unfold settleResult; destruct r as [rs | d | [] d]; cbn -[advanceBases];
    try (destruct (strikes s + 1 >=? 3));
    try (match goal with |- context [advanceBases ?r ?n] =>
           destruct (advanceBases r n) end);
    repeat split.
Qed.

(** Strike-count invariant: starting from a count in [0, 2], every settled
    result and the three-out effect keep it in [0, 2], and a result adds
    at most one out. *)
Theorem strikes_stay_in_range (r : HitResult) (s : Session) :
  0 <= strikes s <= 2 ->
  let s' := settleResult r s in
  0 <= strikes s' <= 2 /\ outs s <= outs s' <= outs s + 1 /\
  0 <= strikes (outsEffect s') <= 2.
Proof.
  intros H; cbn zeta.
  assert (Hs : 0 <= strikes (settleResult r s) <= 2 /\
               outs s <= outs (settleResult r s) <= outs s + 1).
  { unfold settleResult; destruct r as [rs | d | [] d]; cbn -[advanceBases];
      try (match goal with |- context [advanceBases ?r ?n] =>
             destruct (advanceBases r n); cbn end);
      try (rewrite Z.geb_leb; destruct (Z.leb_spec 3 (strikes s + 1)); cbn);
      try (destruct (Z.ltb_spec (strikes s) 2); cbn);
      lia. }
  split; [apply Hs | split; [apply Hs |]].
  unfold outsEffect; destruct (outs (settleResult r s) >=? 3); cbn; [lia | apply Hs].
Qed.

Lemma strikes_stay_in_range_witness :
  0 <= strikes (setStrikes 2 initialSession) <= 2 /\
  (let s' := settleResult (Strike Late) (setStrikes 2 initialSession) in
   0 <= strikes s' <= 2 /\
   outs (setStrikes 2 initialSession) <= outs s' <= outs (setStrikes 2 initialSession) + 1 /\
   0 <= strikes (outsEffect s') <= 2).
Proof.
  split; [cbn; lia |].
  apply strikes_stay_in_range; cbn; lia.
Defined.

(** *** Swings and the flight *)

Open Scope Q_scope.

(** A swing changes nothing while no pitch is in flight; a verdict only
    comes from a swing during a flight, records the swing's progress and
    ends the flight; and a swing is never judged a triple. *)
Theorem doSwing_guard_and_verdicts (ip : bool) (t : Q) (sa : option Q) :
  let o := doSwing ip t sa in
  (ip = false -> o = mkSwingOutcome None sa false) /\
  (settled o <> None -> ip = true /\ inPlay' o = false /\ swingAt' o = Some t) /\
  (forall d, settled o <> Some (Hit Triple d)).
Proof.
  cbn zeta; unfold doSwing.
  destruct ip; cbn [negb].
  - destruct (swingVerdict (Qabs (t - CONTACT_PROGRESS))) as [r |] eqn:E; cbn.
    + repeat split; try congruence.
      intros d' Hd; injection Hd as Hr; subst r.
      unfold swingVerdict in E.
      repeat match type of E with context [if ?b then _ else _] => destruct b end;
        discriminate.
    + repeat split; intros; cbn in *; congruence.
  - repeat split; intros; cbn in *; congruence.
Qed.

Lemma swingVerdict_within_foul (delta : Q) (r : HitResult) :
  swingVerdict delta = Some r -> delta <= FOUL.
Proof.
  unfold swingVerdict, PERFECT, GOOD, OKAY, FOUL.
  destruct (Qle_bool delta (10 # 1000)) eqn:E1;
    [apply Qle_bool_iff in E1; lra |].
  destruct (Qle_bool delta (20 # 1000)) eqn:E2;
    [apply Qle_bool_iff in E2; lra |].
  destruct (Qle_bool delta (35 # 1000)) eqn:E3;
    [apply Qle_bool_iff in E3; lra |].
  destruct (Qle_bool delta (55 # 1000)) eqn:E4;
    [apply Qle_bool_iff in E4; lra | discriminate].
Qed.

(** A swing that got a verdict is not settled a second time when the
    flight ends: the end-of-flight branch finds the recorded swing within
    the foul cut-off and settles nothing. *)
Theorem no_double_settlement (t : Q) (sa : option Q) (r : HitResult) :
  settled (doSwing true t sa) = Some r ->
  endOfFlight (swingAt' (doSwing true t sa)) = None.
Proof.
  unfold doSwing; cbn [negb].
  destruct (swingVerdict (Qabs (t - CONTACT_PROGRESS))) as [r' |] eqn:E;
    cbn [settled swingAt']; [intros _ | discriminate].
  apply swingVerdict_within_foul in E.
  apply Qabs_Qle_condition in E as [E1 E2].
  unfold endOfFlight, jsFalsy.
  destruct (Qeq_bool t 0) eqn:Z0.
  - apply Qeq_bool_iff in Z0; unfold CONTACT_PROGRESS, FOUL in *; lra.
  - destruct (Qlt_bool FOUL (Qabs (t - CONTACT_PROGRESS))) eqn:F; [| reflexivity].
    apply Qlt_bool_iff in F.
    exfalso; apply (Qlt_not_le _ _ F); apply Qabs_Qle_condition; split; assumption.
Qed.

Lemma no_double_settlement_witness :
  settled (doSwing true (86 # 100) None) = Some (Hit Homerun (Qabs ((86 # 100) - CONTACT_PROGRESS))) /\
  endOfFlight (swingAt' (doSwing true (86 # 100) None)) = None.
Proof.
  split; [reflexivity |].
  apply (no_double_settlement (86 # 100) None (Hit Homerun (Qabs ((86 # 100) - CONTACT_PROGRESS)))); reflexivity.
Defined.

Lemma clamp01_lt1 (x : Q) : clamp x 0 1 < 1 <-> x < 1.
Proof.
  unfold clamp.
  destruct (Q.min_spec 1 x) as [[H1 H2] | [H1 H2]];
    destruct (Q.max_spec 0 (Qmin 1 x)) as [[H3 H4] | [H3 H4]]; split; intros; lra.
Qed.

(** Animation step: with a start stamp [st] (non-zero, not after [now])
    and the flight time of any velocity, the progress stays in [0, 1] and
    the loop asks for another frame exactly while less time than the
    flight time has elapsed. *)
Theorem flight_progress_step (st now mph : Q) :
  ~ st == 0 -> st <= now ->
  let t := flightProgress (Some st) now (plateTimeMsFromMph mph) in
  0 <= t <= 1 /\
  (flightContinues t = true <-> now - st < plateTimeMsFromMph mph).
Proof.
  intros Hst Hle; cbn zeta.
  pose proof (plateTime_bounds mph) as [Hp _].
  assert (Hpos : 0 < plateTimeMsFromMph mph) by lra.
  unfold flightProgress.
  destruct (Qeq_bool st 0) eqn:E; [apply Qeq_bool_iff in E; contradiction |].
  split; [apply clamp01_bounds |].
  unfold flightContinues; rewrite Qlt_bool_iff, clamp01_lt1.
  split; intros H.
  - destruct (Qlt_le_dec (now - st) (plateTimeMsFromMph mph)) as [L | L]; [exact L |].
    exfalso; apply (Qlt_not_le _ _ H).
    apply Qle_shift_div_l; [exact Hpos | lra].
  - apply Qlt_shift_div_r; [exact Hpos | lra].
Qed.

Lemma flight_progress_step_witness :
  (~ 1000 == 0 /\ 1000 <= 1500) /\
  (let t := flightProgress (Some 1000) 1500 (plateTimeMsFromMph 85) in
   0 <= t <= 1 /\
   (flightContinues t = true <-> 1500 - 1000 < plateTimeMsFromMph 85)).
Proof.
  split; [split; [discriminate | lra] |].
  apply flight_progress_step; [discriminate | lra].
Defined.

(** Ball position: over a flight ([progress] in [0, 1]) the drawn height
    stays in [0, 320] px and the scale in [0.6, 1.4], both growing with
    the progress. *)
Theorem ball_position_bounds (p : Q) :
  0 <= p <= 1 ->
  0 <= yPx p <= 320 /\ 6 # 10 <= zScale p <= 14 # 10 /\
  (forall p', p <= p' -> yPx p <= yPx p' /\ zScale p <= zScale p').
Proof.
  unfold yPx, zScale, lerp; intros H; repeat split; intros; try lra.
Qed.

Lemma ball_position_bounds_witness :
  0 <= 1 # 2 <= 1 /\
  (0 <= yPx (1 # 2) <= 320 /\ 6 # 10 <= zScale (1 # 2) <= 14 # 10 /\
   (forall p', 1 # 2 <= p' -> yPx (1 # 2) <= yPx p' /\ zScale (1 # 2) <= zScale p')).
Proof.
  split; [lra |]. apply ball_position_bounds; lra.
Defined.

(** *** Pitch start and game over *)

Open Scope Z_scope.


(** The pitch that reaches the limit cannot be hit: when [startPitch]
    brings [pitches] to [maxPitches], the game-over effect that follows
    ends the flight at once, and every swing on it is ignored. Below the
    limit the pitch stays in flight. *)
Theorem last_pitch_unplayable (s : Session) (sa sw : option Q) :
  inPlay s = false ->
  let s' := gameOverEffect (fst (startPitch s sa)) in
  (inPlay s' = true <-> pitches s + 1 < maxPitches s) /\
  (maxPitches s <= pitches s + 1 ->
   gameOver s' = true /\
   forall t, settled (doSwing (inPlay s') t sw) = None /\
             swingAt' (doSwing (inPlay s') t sw) = sw).
Proof.
  intros H; cbn zeta; unfold startPitch; rewrite H; cbn [fst].
  unfold gameOverEffect; cbn.
  rewrite Z.geb_leb; destruct (Z.leb_spec (maxPitches s) (pitches s + 1)); cbn.
  - split; [split; [discriminate | intros; lia] |].
    intros _; split; [reflexivity |]; intros t; split; reflexivity.
  - split; [split; [intros; lia | reflexivity] | intros; lia].
Qed.

Lemma last_pitch_unplayable_witness :
  inPlay (setPitches 4 initialSession) = false /\
  (let s' := gameOverEffect (fst (startPitch (setPitches 4 initialSession) None)) in
   (inPlay s' = true <-> pitches (setPitches 4 initialSession) + 1 < maxPitches (setPitches 4 initialSession)) /\
   (maxPitches (setPitches 4 initialSession) <= pitches (setPitches 4 initialSession) + 1 ->
    gameOver s' = true /\
    forall t, settled (doSwing (inPlay s') t None) = None /\
              swingAt' (doSwing (inPlay s') t None) = None)).
Proof.
  split; [reflexivity |].
  apply last_pitch_unplayable; reflexivity.
Defined.

(** *** Swing signals *)

(** Browser-side debounce: in any run of notifications, each call of
    [onSwing] comes at least [debounceMs] after the previous one (the first
    at least [debounceMs] after the initial [lastSwingAtRef]), whatever the
    texts and the clock readings. *)
Theorem ble_swings_debounced (tok : String.string) (d last : Q)
    (evs : list (option String.string * Q)) :
  Ble.spacedFrom d last (Ble.acceptedSwings tok d last evs).
Proof.
  revert last; induction evs as [| [v now] rest IH]; intros last; cbn; [exact I |].
  unfold Ble.handleNotify; destruct v as [raw |]; [| apply IH].
  destruct (Ble.includes _ _); [| apply IH].
  destruct (Qle_bool d (now - last)) eqn:E; [| apply IH].
  split; [apply Qle_bool_iff; exact E | apply IH].
Qed.

(** Sensor-side detector: a "SWING" notification is sent only for a
    detected swing and only while a client is connected; in any run of
    loop iterations, each detection is more than [DEBOUNCE_MS] after the
    previous one in unsigned 32-bit [millis()] arithmetic. *)
Theorem esp32_detections_debounced (c : bool) (last : Z) (evs : list (Q * Z)) :
  (forall a now, let '(det, notif, _) := Esp32.loopStep c a now last in
                 notif = det && c) /\
  Esp32.spacedMod last (Esp32.detections c last evs).
Proof.
  split.
  - intros a now; unfold Esp32.loopStep.
    destruct (_ && _); [reflexivity | reflexivity].
  - revert last; induction evs as [| [a now] rest IH]; intros last;
      cbn [Esp32.detections]; [exact I |].
    destruct (Esp32.loopStep c a now last) as [[det notif] last'] eqn:E.
    unfold Esp32.loopStep in E.
    destruct (Qlt_bool Esp32.SWING_THRESHOLD a &&
              ((now - last) mod Esp32.ULONG_MOD >? Esp32.DEBOUNCE_MS)) eqn:C;
      injection E as <- <- <-; [| apply IH].
    apply andb_prop in C as [_ C]; apply Z.gtb_lt in C.
    split; [lia | apply IH].
Qed.

(** The detector survives the wrap-around of [millis()] (about 49.7 days):
    for real times [t1 <= t2] less than 2^32 ms apart, the test on the
    wrapped readings is the test on the real elapsed time. *)
Theorem esp32_debounce_wrap_safe (c : bool) (a : Q) (t1 t2 : Z) :
  t1 <= t2 < t1 + Esp32.ULONG_MOD ->
  Esp32.loopStep c a (t2 mod Esp32.ULONG_MOD) (t1 mod Esp32.ULONG_MOD) =
  if Qlt_bool Esp32.SWING_THRESHOLD a && (t2 - t1 >? Esp32.DEBOUNCE_MS)
  then (true, c, t2 mod Esp32.ULONG_MOD)
  else (false, false, t1 mod Esp32.ULONG_MOD).
Proof.
  intros H; unfold Esp32.loopStep.
  rewrite <- Zminus_mod, Z.mod_small by (unfold Esp32.ULONG_MOD in *; lia).
  reflexivity.
Qed.

Lemma esp32_debounce_wrap_safe_witness :
  (4294967000 <= 4294967500 < 4294967000 + Esp32.ULONG_MOD) /\
  Esp32.loopStep true 20 (4294967500 mod Esp32.ULONG_MOD) (4294967000 mod Esp32.ULONG_MOD) =
  (if Qlt_bool Esp32.SWING_THRESHOLD 20 && (4294967500 - 4294967000 >? Esp32.DEBOUNCE_MS)
   then (true, true, 4294967500 mod Esp32.ULONG_MOD)
   else (false, false, 4294967000 mod Esp32.ULONG_MOD)).
Proof.
  split; [unfold Esp32.ULONG_MOD; lia |].
  apply esp32_debounce_wrap_safe; unfold Esp32.ULONG_MOD; lia.
Defined.

(** *** Plate time of the earlier screen version *)

Open Scope Q_scope.

Lemma legacy_plateTime_linear (mph : Q) :
  70 <= mph <= 100 -> Legacy.plateTimeMsFromMph mph == 600 - (20 # 3) * (mph - 70).
Proof.
  intros H; unfold Legacy.plateTimeMsFromMph, lerp, Qdiv.
  change (/ (100 - 70)) with (1 # 30).
  rewrite clamp01_id by lra; ring.
Qed.

(** The earlier version maps 70-100 mph linearly onto 600-400 ms: strictly
    decreasing there, 600 ms at 70 mph, 400 ms at 100 mph, and always
    between 400 ms and 600 ms. *)
Theorem legacy_plateTime_decreasing (v1 v2 : Q) :
  70 <= v1 -> v1 < v2 -> v2 <= 100 ->
  Legacy.plateTimeMsFromMph v2 < Legacy.plateTimeMsFromMph v1 /\
  Legacy.plateTimeMsFromMph 70 == 600 /\ Legacy.plateTimeMsFromMph 100 == 400 /\
  (forall v, 400 <= Legacy.plateTimeMsFromMph v <= 600).
Proof.
  intros H1 H12 H2.
  split; [rewrite (legacy_plateTime_linear v1), (legacy_plateTime_linear v2) by lra; lra |].
  split; [reflexivity | split; [reflexivity |]].
  intros v; unfold Legacy.plateTimeMsFromMph, lerp.
  pose proof (clamp01_bounds ((v - 70) / (100 - 70))); lra.
Qed.

Lemma legacy_plateTime_decreasing_witness :
  (70 <= 80 /\ 80 < 90 /\ 90 <= 100) /\
  (Legacy.plateTimeMsFromMph 90 < Legacy.plateTimeMsFromMph 80 /\
   Legacy.plateTimeMsFromMph 70 == 600 /\ Legacy.plateTimeMsFromMph 100 == 400 /\
   (forall v, 400 <= Legacy.plateTimeMsFromMph v <= 600)).
Proof.
  split; [repeat split; lra |].
  apply legacy_plateTime_decreasing; lra.
Defined.

(** *** Case-insensitive token test *)

Lemma upperChar_idem (c : Ascii.ascii) :
  Ble.upperChar (Ble.upperChar c) = Ble.upperChar c.
Proof. destruct c as [[] [] [] [] [] [] [] []]; reflexivity. Qed.

Lemma isSpace_upperChar (c : Ascii.ascii) :
  Ble.isSpace (Ble.upperChar c) = Ble.isSpace c.
Proof. destruct c as [[] [] [] [] [] [] [] []]; reflexivity. Qed.

Lemma toUpperCase_idem (s : String.string) :
  Ble.toUpperCase (Ble.toUpperCase s) = Ble.toUpperCase s.
Proof.
  induction s as [| c t IH]; cbn; [reflexivity | rewrite upperChar_idem, IH; reflexivity].
Qed.

Lemma dropSpaces_toUpperCase (s : String.string) :
  Ble.dropSpaces (Ble.toUpperCase s) = Ble.toUpperCase (Ble.dropSpaces s).
Proof.
  induction s as [| c t IH]; cbn; [reflexivity |].
  rewrite isSpace_upperChar; destruct (Ble.isSpace c); [exact IH | reflexivity].
Qed.

Lemma toUpperCase_as_map (s : String.string) :
  String.list_ascii_of_string (Ble.toUpperCase s) =
  map Ble.upperChar (String.list_ascii_of_string s).
Proof. induction s as [| c t IH]; cbn; [reflexivity | rewrite IH; reflexivity]. Qed.

Lemma toUpperCase_of_list (l : list Ascii.ascii) :
  Ble.toUpperCase (String.string_of_list_ascii l) =
  String.string_of_list_ascii (map Ble.upperChar l).
Proof. induction l as [| c t IH]; cbn; [reflexivity | rewrite IH; reflexivity]. Qed.

Lemma reverseStr_toUpperCase (s : String.string) :
  Ble.reverseStr (Ble.toUpperCase s) = Ble.toUpperCase (Ble.reverseStr s).
Proof.
  unfold Ble.reverseStr.
  rewrite toUpperCase_as_map, toUpperCase_of_list, map_rev; reflexivity.
Qed.

Lemma trim_toUpperCase (s : String.string) :
  Ble.trim (Ble.toUpperCase s) = Ble.toUpperCase (Ble.trim s).
Proof.
  unfold Ble.trim.
  rewrite dropSpaces_toUpperCase, reverseStr_toUpperCase, dropSpaces_toUpperCase,
    reverseStr_toUpperCase; reflexivity.
Qed.

(** The swing-token test ignores letter case: two messages, or two tokens,
    that agree once upper-cased are treated the same by [handleNotify]. *)
Theorem ble_token_case_insensitive (tok1 tok2 r1 r2 : String.string) (d now last : Q) :
  Ble.toUpperCase tok1 = Ble.toUpperCase tok2 ->
  Ble.toUpperCase r1 = Ble.toUpperCase r2 ->
  Ble.handleNotify tok1 d (Some r1) now last = Ble.handleNotify tok2 d (Some r2) now last.
Proof.
  intros Ht Hr; unfold Ble.handleNotify.
  assert (E : forall r, Ble.toUpperCase (Ble.trim r) =
                        Ble.toUpperCase (Ble.trim (Ble.toUpperCase r))).
  { intros r; rewrite trim_toUpperCase, toUpperCase_idem; reflexivity. }
  rewrite (E r1), (E r2), Hr, Ht; reflexivity.
Qed.

Import (notations) String.

Lemma ble_token_case_insensitive_witness :
  Ble.toUpperCase "SWING"%string = Ble.toUpperCase "swing"%string /\
  Ble.toUpperCase "Swing"%string = Ble.toUpperCase "sWiNg"%string /\
  Ble.handleNotify "SWING" 250 (Some "Swing"%string) 1000 0 =
  Ble.handleNotify "swing" 250 (Some "sWiNg"%string) 1000 0.
Proof.
  split; [reflexivity | split; [reflexivity |]].
  apply ble_token_case_insensitive; reflexivity.
Defined.
